(** * IdentityVerification: the identity registry contract

    A shallow embedding of [contracts/Identity.sol] (contract
    [IdentityVerification]) and the proofs of the registry's properties.

    Solidity notions and how they appear here:
    - [address] is a 160-bit unsigned integer, a value of [N]; no proof
      below depends on the bound;
    - [mapping(address => Identity)] is a finite map read with the total
      lookup [!!!]: a key that was never written, or that was reset by the
      [delete] statement, reads as the zero value of the struct;
    - [msg.sender] is the first argument of every external function;
    - a function body is a computation in the transaction monad [Tx]: it
      reads and writes storage, emits events, and may revert with a reason
      string;
    - the execution environment commits the state of a successful call and
      discards the state of a reverted one ([transact]). *)

From Stdlib Require Import NArith String List.
From stdpp Require Import gmap strings list fin_maps.

Local Open Scope string_scope.
Local Open Scope list_scope.
Local Open Scope N_scope.

(** ** Data model *)

Abbreviation address := N (only parsing).

(** [struct Identity]. The member [exists] is spelled [exists_]: the
    source's name is a keyword. *)
Record Identity : Type := mkIdentity {
  user : address;
  name : string;
  email : string;
  isVerified : bool;
  exists_ : bool
}.

(** The zero value of [Identity]: what an unwritten mapping slot holds and
    what the [delete] statement restores. *)
Definition Identity_zero : Identity :=
  {| user := 0; name := ""; email := ""; isVerified := false; exists_ := false |}.

#[global] Instance Identity_inhabited : Inhabited Identity := populate Identity_zero.

(** Assignments to a single member of a struct in storage. *)
Definition set_name (v : string) (r : Identity) : Identity :=
  {| user := user r; name := v; email := email r;
     isVerified := isVerified r; exists_ := exists_ r |}.

Definition set_email (v : string) (r : Identity) : Identity :=
  {| user := user r; name := name r; email := v;
     isVerified := isVerified r; exists_ := exists_ r |}.

Definition set_isVerified (v : bool) (r : Identity) : Identity :=
  {| user := user r; name := name r; email := email r;
     isVerified := v; exists_ := exists_ r |}.

(** The contract's events. *)
Inductive Event : Type :=
| IdentityAdded (user : address) (name email : string)
| IdentityUpdated (user : address) (name email : string)
| IdentityDeleted (user : address)
| IdentityVerified (user : address)
| IdentityRevoked (user : address)
| IdentityActionLogged (action : string).

(** Effects of a call on the world outside its local variables, in program
    order: a write to the storage slot of a key, or an emitted event. *)
Inductive Effect : Type :=
| SStore (key : address)
| Log (e : Event).

(** Contract state: the storage variable [identities] and the journal of
    the effects performed so far. *)
Record State : Type := mkState {
  identities : gmap N Identity;
  journal : list Effect
}.

(** The event log is the journal restricted to emitted events. *)
Definition logged (x : Effect) : option Event :=
  match x with
  | SStore _ => None
  | Log e => Some e
  end.

Definition events (s : State) : list Event := omap logged (journal s).

Definition is_store (x : Effect) : bool :=
  match x with
  | SStore _ => true
  | Log _ => false
  end.

(** State of the freshly deployed contract. *)
Definition genesis : State := {| identities := ∅; journal := [] |}.

(** ** The transaction monad *)

(** A computation either returns a value or reverts with a reason. Both
    outcomes carry the state reached at that point; [transact] below is
    what discards the state of a revert. *)
Inductive Outcome (A : Type) : Type :=
| Success (a : A) (s : State)
| Revert (reason : string) (s : State).

Arguments Success {A} a s.
Arguments Revert {A} reason s.

Definition Tx (A : Type) : Type := State → Outcome A.

#[global] Instance Tx_ret : MRet Tx := λ A (a : A) s, Success a s.

#[global] Instance Tx_bind : MBind Tx := λ A B (k : A → Tx B) (m : Tx A) s,
  match m s with
  | Success a s1 => k a s1
  | Revert reason s1 => Revert reason s1
  end.

(** [require(cond, reason)] *)
Definition require (cond : bool) (reason : string) : Tx unit :=
  λ s, if cond then Success tt s else Revert reason s.

(** [identities[key]] read from storage. *)
Definition sload (key : address) : Tx Identity :=
  λ s, Success (identities s !!! key) s.

(** [identities[key] = v] *)
Definition sstore (key : address) (v : Identity) : Tx unit :=
  λ s, Success tt {| identities := <[key := v]> (identities s);
                     journal := journal s ++ [SStore key] |}.

(** [identities[key].member = v], with [f] the member assignment. *)
Definition sstore_member (key : address) (f : Identity → Identity) : Tx unit :=
  λ s, Success tt {| identities := <[key := f (identities s !!! key)]> (identities s);
                     journal := journal s ++ [SStore key] |}.

(** [delete identities[key]] *)
Definition sdelete (key : address) : Tx unit :=
  λ s, Success tt {| identities := delete key (identities s);
                     journal := journal s ++ [SStore key] |}.

(** [emit e] *)
Definition emit (e : Event) : Tx unit :=
  λ s, Success tt {| identities := identities s;
                     journal := journal s ++ [Log e] |}.

(** The two revert reasons of the contract, under the names the
    specification gives them. *)
Definition AlreadyExists : string := "Identity already exists".
Definition NotFound : string := "Identity does not exist".

(** ** The contract's functions *)

Definition logIdentityAction (action : string) : Tx unit :=
  emit (IdentityActionLogged action).

Definition addIdentity (sender : address) (_name _email : string) : Tx unit :=
  cur ← sload sender;
  require (negb (exists_ cur)) "Identity already exists";;
  sstore sender {| user := sender; name := _name; email := _email;
                   isVerified := false; exists_ := true |};;
  emit (IdentityAdded sender _name _email);;
  logIdentityAction "Identity Added".

Definition updateIdentity (sender : address) (_name _email : string) : Tx unit :=
  cur ← sload sender;
  require (exists_ cur) "Identity does not exist";;
  sstore_member sender (set_name _name);;
  sstore_member sender (set_email _email);;
  emit (IdentityUpdated sender _name _email);;
  logIdentityAction "Identity Updated".

Definition deleteIdentity (sender : address) : Tx unit :=
  cur ← sload sender;
  require (exists_ cur) "Identity does not exist";;
  sdelete sender;;
  emit (IdentityDeleted sender);;
  logIdentityAction "Identity Deleted".

Definition verifyIdentity (sender : address) : Tx unit :=
  cur ← sload sender;
  require (exists_ cur) "Identity does not exist";;
  sstore_member sender (set_isVerified true);;
  emit (IdentityVerified sender);;
  logIdentityAction "Identity Verified".

Definition revokeIdentity (sender : address) : Tx unit :=
  cur ← sload sender;
  require (exists_ cur) "Identity does not exist";;
  sstore_member sender (set_isVerified false);;
  emit (IdentityRevoked sender);;
  logIdentityAction "Identity Revoked".

Definition getIdentity (_user : address) : Tx Identity :=
  cur ← sload _user;
  require (exists_ cur) "Identity does not exist";;
  sload _user.

Definition isIdentityVerified (_user : address) : Tx bool :=
  cur ← sload _user;
  require (exists_ cur) "Identity does not exist";;
  r ← sload _user;
  mret (isVerified r).

(** The getter the compiler generates for [mapping(...) public identities]:
    no [require], it returns the members of the slot as a tuple. *)
Definition identities_getter (key : address)
  : Tx (address * string * string * bool * bool) :=
  r ← sload key;
  mret (user r, name r, email r, isVerified r, exists_ r).

(** ** Calls and reachable states *)

(** The state-changing external functions, as call data. *)
Inductive Call : Type :=
| AddIdentity (_name _email : string)
| UpdateIdentity (_name _email : string)
| DeleteIdentity
| VerifyIdentity
| RevokeIdentity.

Definition dispatch (sender : address) (c : Call) : Tx unit :=
  match c with
  | AddIdentity n e => addIdentity sender n e
  | UpdateIdentity n e => updateIdentity sender n e
  | DeleteIdentity => deleteIdentity sender
  | VerifyIdentity => verifyIdentity sender
  | RevokeIdentity => revokeIdentity sender
  end.

(** What the execution environment does with a call in state [s]: the
    state of a successful call is committed, a revert rolls back to [s]. *)
Definition transact {A : Type} (tx : Tx A) (s : State) : State :=
  match tx s with
  | Success _ s' => s'
  | Revert _ _ => s
  end.

(** The states the deployed contract can be in: any sequence of calls, by
    any senders, from [genesis]. *)
Inductive reachable : State → Prop :=
| reachable_genesis : reachable genesis
| reachable_call (s : State) (sender : address) (c : Call) :
    reachable s → reachable (transact (dispatch sender c) s).

(** Running a list of calls in order. *)
Definition run (calls : list (address * Call)) (s : State) : State :=
  foldl (λ st sc, transact (dispatch sc.1 sc.2) st) s calls.

(** ** Vocabulary of the properties *)

(** The two shapes of a committed state: the slot of [key] overwritten with
    [v], or reset, and the effects [fx] appended to the journal. *)
Definition written (s : State) (key : address) (v : Identity)
    (fx : list Effect) : State :=
  {| identities := <[key := v]> (identities s); journal := journal s ++ fx |}.

Definition erased (s : State) (key : address) (fx : list Effect) : State :=
  {| identities := delete key (identities s); journal := journal s ++ fx |}.

(** A verified record is a live record. *)
Definition verified_implies_exists (s : State) (p : address) : Prop :=
  isVerified (identities s !!! p) = true → exists_ (identities s !!! p) = true.

(** The [user] member of a live record is the key it is stored under. *)
Definition key_consistent (s : State) (p : address) : Prop :=
  exists_ (identities s !!! p) = true → user (identities s !!! p) = p.

(** A slot that is not live holds the zero value. *)
Definition absent_is_zero (s : State) (p : address) : Prop :=
  exists_ (identities s !!! p) = false → identities s !!! p = Identity_zero.

(** Between [s] and [s'] the call performed one or more storage writes and
    then, after all of them, emitted [specific] followed by the generic
    [IdentityActionLogged action]; nothing else was emitted. *)
Definition emits_after_writes (s s' : State) (specific : Event)
    (action : string) : Prop :=
  events s' = events s ++ [specific; IdentityActionLogged action] ∧
  ∃ writes : list Effect,
    writes ≠ [] ∧ forallb is_store writes = true ∧
    journal s' =
      journal s ++ writes ++ [Log specific; Log (IdentityActionLogged action)].

(** The computation [tx], run in [s], reverts with [reason]. *)
Definition fails_with {A : Type} (tx : Tx A) (s : State) (reason : string) : Prop :=
  ∃ s' : State, tx s = Revert reason s'.

(** Concrete principals and states used to exercise the theorems. *)
Definition alice : N := 1.
Definition bob : N := 2.

Definition s_alice : State :=
  run [(alice, AddIdentity "Alice" "alice@example.com")] genesis.

Definition s_alice_verified : State :=
  run [(alice, AddIdentity "Alice" "alice@example.com");
       (alice, VerifyIdentity)] genesis.

Definition s_alice_deleted : State :=
  run [(alice, AddIdentity "Alice" "alice@example.com");
       (alice, VerifyIdentity);
       (alice, DeleteIdentity)] genesis.

(** The life cycle the test suite walks through, as a list of calls. *)
Definition life_cycle : list (address * Call) :=
  [(alice, AddIdentity "Alice" "alice@example.com");
   (alice, VerifyIdentity);
   (alice, UpdateIdentity "Alice2" "a2@example.com");
   (alice, RevokeIdentity);
   (alice, DeleteIdentity)].

(** ** Further vocabulary: outcomes, the event log, the client *)

(** What a call [c] by [p] makes of [p]'s own slot [r]. *)
Definition slot_step (p : address) (c : Call) (r : Identity) : Identity :=
  match c with
  | AddIdentity n e =>
      if exists_ r then r else mkIdentity p n e false true
  | UpdateIdentity n e =>
      if exists_ r then mkIdentity (user r) n e (isVerified r) (exists_ r) else r
  | DeleteIdentity => if exists_ r then Identity_zero else r
  | VerifyIdentity => if exists_ r then set_isVerified true r else r
  | RevokeIdentity => if exists_ r then set_isVerified false r else r
  end.

(** The action string [logIdentityAction] is called with next to each of
    the five specific events. *)
Definition action_of (e : Event) : option string :=
  match e with
  | IdentityAdded _ _ _ => Some "Identity Added"
  | IdentityUpdated _ _ _ => Some "Identity Updated"
  | IdentityDeleted _ => Some "Identity Deleted"
  | IdentityVerified _ => Some "Identity Verified"
  | IdentityRevoked _ => Some "Identity Revoked"
  | IdentityActionLogged _ => None
  end.

(** A log made of pairs: a specific event, then [IdentityActionLogged] with
    the action string of that event. *)
Fixpoint well_paired (log : list Event) : bool :=
  match log with
  | [] => true
  | e :: rest =>
      match rest with
      | IdentityActionLogged a :: rest' =>
          bool_decide (action_of e = Some a) && well_paired rest'
      | _ => false
      end
  end.

(** An observer that follows the event log and applies to its own copy of
    the mapping what each event reports. *)
Definition apply_event (m : gmap N Identity) (e : Event) : gmap N Identity :=
  match e with
  | IdentityAdded u n m_email => <[u := mkIdentity u n m_email false true]> m
  | IdentityUpdated u n m_email =>
      <[u := set_email m_email (set_name n (m !!! u))]> m
  | IdentityDeleted u => delete u m
  | IdentityVerified u => <[u := set_isVerified true (m !!! u)]> m
  | IdentityRevoked u => <[u := set_isVerified false (m !!! u)]> m
  | IdentityActionLogged _ => m
  end.

Definition replay (log : list Event) : gmap N Identity :=
  foldl apply_event ∅ log.

(** Every live record is accounted for in the log [log]: its creation, the
    name and email it holds, and its verification each have their event. *)
Definition announced (log : list Event) (p : address) (r : Identity) : Prop :=
  exists_ r = true →
  (∃ n e : string, IdentityAdded p n e ∈ log) ∧
  (IdentityAdded p (name r) (email r) ∈ log ∨
   IdentityUpdated p (name r) (email r) ∈ log) ∧
  (isVerified r = true → IdentityVerified p ∈ log).

(** *** The page component's [fetchIdentity] ([app/page.tsx])

    The component keeps the form fields, the fetched identity and a flag in
    React state; [notify] shows a toast. [fetchIdentity] reads the contract
    through [contract?.getIdentity(account)]: [contract] is [null] until the
    component has set it, a reverted call throws, and the [catch] turns any
    exception into an error toast. *)








(** The calls of the contract's test suite, in order, with [alice] for
    [user1] and [bob] for [user2]. *)
Definition test_suite : list (address * Call) :=
  [(alice, AddIdentity "Alice" "alice@example.com");
   (alice, UpdateIdentity "Alice Updated" "aliceupdated@example.com");
   (alice, VerifyIdentity);
   (alice, RevokeIdentity);
   (alice, AddIdentity "Alice" "alice@example.com");
   (bob, UpdateIdentity "Alice" "alice@example.com");
   (bob, DeleteIdentity);
   (bob, VerifyIdentity);
   (bob, RevokeIdentity);
   (alice, DeleteIdentity)].

(** ** Closed forms of the functions

    Each state-changing function, run in state [s], either reverts in [s]
    itself or succeeds in the state given here. *)

(** Unfolds the monadic plumbing of a function body. *)
Ltac tx_unfold :=
  unfold mbind, Tx_bind, mret, Tx_ret, logIdentityAction, sload, require,
    sstore, sstore_member, sdelete, emit, AlreadyExists, NotFound;
  simpl.

Section ClosedForms.
Variables (s : State) (p : address).

Let cur : Identity := identities s !!! p.

Lemma addIdentity_eq (n e : string) :
  addIdentity p n e s =
    if exists_ cur then Revert AlreadyExists s
    else Success tt (written s p (mkIdentity p n e false true)
           [SStore p; Log (IdentityAdded p n e);
            Log (IdentityActionLogged "Identity Added")]).
Proof.
  subst cur. unfold addIdentity. tx_unfold.
  destruct (exists_ (identities s !!! p)); simpl; [reflexivity|].
  unfold written. by rewrite <- !app_assoc.
Qed.

Lemma updateIdentity_eq (n e : string) :
  updateIdentity p n e s =
    if exists_ cur
    then Success tt (written s p
           (mkIdentity (user cur) n e (isVerified cur) (exists_ cur))
           [SStore p; SStore p; Log (IdentityUpdated p n e);
            Log (IdentityActionLogged "Identity Updated")])
    else Revert NotFound s.
Proof.
  subst cur. unfold updateIdentity. tx_unfold.
  destruct (exists_ (identities s !!! p)) eqn:Hex; simpl; [|reflexivity].
  unfold written. rewrite lookup_total_insert_eq, insert_insert_eq.
  rewrite <- !app_assoc. unfold set_email, set_name; simpl. by rewrite Hex.
Qed.

Lemma deleteIdentity_eq :
  deleteIdentity p s =
    if exists_ cur
    then Success tt (erased s p
           [SStore p; Log (IdentityDeleted p);
            Log (IdentityActionLogged "Identity Deleted")])
    else Revert NotFound s.
Proof.
  subst cur. unfold deleteIdentity. tx_unfold.
  destruct (exists_ (identities s !!! p)); simpl; [|reflexivity].
  unfold erased. by rewrite <- !app_assoc.
Qed.

Lemma verifyIdentity_eq :
  verifyIdentity p s =
    if exists_ cur
    then Success tt (written s p (set_isVerified true cur)
           [SStore p; Log (IdentityVerified p);
            Log (IdentityActionLogged "Identity Verified")])
    else Revert NotFound s.
Proof.
  subst cur. unfold verifyIdentity. tx_unfold.
  destruct (exists_ (identities s !!! p)); simpl; [|reflexivity].
  unfold written. by rewrite <- !app_assoc.
Qed.

Lemma revokeIdentity_eq :
  revokeIdentity p s =
    if exists_ cur
    then Success tt (written s p (set_isVerified false cur)
           [SStore p; Log (IdentityRevoked p);
            Log (IdentityActionLogged "Identity Revoked")])
    else Revert NotFound s.
Proof.
  subst cur. unfold revokeIdentity. tx_unfold.
  destruct (exists_ (identities s !!! p)); simpl; [|reflexivity].
  unfold written. by rewrite <- !app_assoc.
Qed.

Lemma getIdentity_eq :
  getIdentity p s = if exists_ cur then Success cur s else Revert NotFound s.
Proof.
  subst cur. unfold getIdentity. tx_unfold.
  destruct (exists_ (identities s !!! p)); reflexivity.
Qed.

Lemma isIdentityVerified_eq :
  isIdentityVerified p s =
    if exists_ cur then Success (isVerified cur) s else Revert NotFound s.
Proof.
  subst cur. unfold isIdentityVerified. tx_unfold.
  destruct (exists_ (identities s !!! p)); reflexivity.
Qed.

Lemma identities_getter_eq :
  identities_getter p s =
    Success (user cur, name cur, email cur, isVerified cur, exists_ cur) s.
Proof. reflexivity. Qed.
End ClosedForms.

(** ** Reading a committed state *)

Lemma lookup_written_eq s p v fx : identities (written s p v fx) !!! p = v.
Proof. unfold written; simpl. apply lookup_total_insert_eq. Qed.

Lemma lookup_written_ne s p q v fx :
  p ≠ q → identities (written s p v fx) !!! q = identities s !!! q.
Proof. intros Hne. unfold written; simpl. by apply lookup_total_insert_ne. Qed.

Lemma lookup_erased_eq s p fx : identities (erased s p fx) !!! p = Identity_zero.
Proof. exact (lookup_total_delete_eq (identities s) p). Qed.

Lemma lookup_erased_ne s p q fx :
  p ≠ q → identities (erased s p fx) !!! q = identities s !!! q.
Proof. intros Hne. unfold erased; simpl. by apply lookup_total_delete_ne. Qed.

Lemma lookup_genesis p : identities genesis !!! p = Identity_zero.
Proof. exact (lookup_total_empty (M := gmap N) p). Qed.

Lemma events_app s fx (s' : State) :
  journal s' = journal s ++ fx → events s' = events s ++ omap logged fx.
Proof. unfold events. intros ->. apply omap_app. Qed.

Lemma reachable_run calls s : reachable s → reachable (run calls s).
Proof.
  revert s. induction calls as [|[sender c] calls IH]; intros s Hs; [done|].
  apply IH. by constructor.
Qed.

(** Splits a goal about [transact (dispatch sender c) s] into the reverted
    and the committed case of each of the five functions. *)
Ltac call_cases sender c s :=
  unfold transact; destruct c; simpl dispatch;
  rewrite ?addIdentity_eq, ?updateIdentity_eq, ?deleteIdentity_eq,
    ?verifyIdentity_eq, ?revokeIdentity_eq;
  destruct (exists_ (identities s !!! sender)) eqn:?; cbv beta iota.

Ltac read_slot :=
  rewrite ?lookup_written_eq, ?lookup_erased_eq, ?lookup_genesis;
  repeat first
    [ rewrite lookup_written_ne by done
    | rewrite lookup_erased_ne by done ].

(** A call by [q] does not touch the slot of another key. *)
Lemma transact_frame s p q c :
  q ≠ p → identities (transact (dispatch q c) s) !!! p = identities s !!! p.
Proof. intros Hne. call_cases q c s; by read_slot. Qed.

(** ** Invariants are inductive *)

Lemma verified_implies_exists_step s sender c p :
  verified_implies_exists s p →
  verified_implies_exists (transact (dispatch sender c) s) p.
Proof.
  intros Hinv. unfold verified_implies_exists.
  destruct (decide (sender = p)) as [->|Hne];
    [|by rewrite transact_frame].
  call_cases p c s; try done; read_slot; simpl; done.
Qed.

Lemma key_consistent_step s sender c p :
  key_consistent s p → key_consistent (transact (dispatch sender c) s) p.
Proof.
  intros Hinv. unfold key_consistent.
  destruct (decide (sender = p)) as [->|Hne];
    [|by rewrite transact_frame].
  call_cases p c s; try done; read_slot; simpl; try done; auto.
Qed.

Lemma absent_is_zero_step s sender c p :
  absent_is_zero s p → absent_is_zero (transact (dispatch sender c) s) p.
Proof.
  intros Hinv. unfold absent_is_zero.
  destruct (decide (sender = p)) as [->|Hne];
    [|by rewrite transact_frame].
  call_cases p c s; try done; read_slot; simpl; try done; congruence.
Qed.

Lemma reachable_ind_inv (P : State → address → Prop) :
  (∀ p, P genesis p) →
  (∀ s sender c p, P s p → P (transact (dispatch sender c) s) p) →
  ∀ s, reachable s → ∀ p, P s p.
Proof.
  intros Hgen Hstep s Hs. induction Hs as [|s sender c _ IH]; [done|].
  intros p. by apply Hstep.
Qed.

Lemma reachable_absent_is_zero s p : reachable s → absent_is_zero s p.
Proof.
  intros Hs. revert p.
  apply (reachable_ind_inv absent_is_zero); [|apply absent_is_zero_step|done].
  intros p _. apply lookup_genesis.
Qed.

Lemma fails_with_revert {A : Type} (tx : Tx A) s reason0 s0 reason :
  tx s = Revert reason0 s0 → fails_with tx s reason ↔ reason = reason0.
Proof.
  intros Heq. unfold fails_with. rewrite Heq. split.
  - intros [s' Hs']. congruence.
  - intros ->. by exists s0.
Qed.

Lemma fails_with_success {A : Type} (tx : Tx A) s a s0 reason :
  tx s = Success a s0 → ¬ fails_with tx s reason.
Proof. intros Heq [s' Hs']. congruence. Qed.

(** * The registry's properties *)

(** ** Invariants *)

(** C1. In every reachable state the record stored for a principal [p]
    satisfies: [isVerified = true] implies [exists = true]. The predicate
    holds in the deployed state and every call ([addIdentity],
    [updateIdentity], [deleteIdentity], [verifyIdentity], [revokeIdentity],
    by any sender, committed or reverted) preserves it. *)
Theorem isVerified_implies_exists (s : State) (p sender : address) (c : Call) :
  verified_implies_exists genesis p ∧
  (verified_implies_exists s p →
   verified_implies_exists (transact (dispatch sender c) s) p) ∧
  (reachable s → verified_implies_exists s p).
Proof.
  split; [|split].
  - unfold verified_implies_exists. by rewrite lookup_genesis.
  - apply verified_implies_exists_step.
  - intros Hs. revert p.
    apply (reachable_ind_inv verified_implies_exists);
      [|apply verified_implies_exists_step|done].
    intros p. unfold verified_implies_exists. by rewrite lookup_genesis.
Qed.

Lemma isVerified_implies_exists_witness :
  reachable s_alice_verified ∧
  isVerified (identities s_alice_verified !!! alice) = true ∧
  exists_ (identities s_alice_verified !!! alice) = true ∧
  verified_implies_exists
    (transact (dispatch alice (UpdateIdentity "Al" "al@example.com"))
       s_alice_verified) alice.
Proof.
  assert (Hr : reachable s_alice_verified)
    by (apply reachable_run, reachable_genesis).
  split; [exact Hr|]. split; [vm_compute; reflexivity|].
  destruct (isVerified_implies_exists s_alice_verified alice alice
              (UpdateIdentity "Al" "al@example.com")) as (_ & Hstep & Hreach).
  split; [exact (Hreach Hr eq_refl)|].
  apply Hstep. intros _. vm_compute. reflexivity.
Defined.

(** C10. In every reachable state the [user] member of a live record equals
    the key [p] it is stored under. [addIdentity] establishes this for the
    record it creates, every call preserves it, and a record that is live
    before and after a call keeps its [user] member. *)
Theorem user_is_key (s : State) (p sender : address) (c : Call)
    (_name _email : string) :
  (reachable s → key_consistent s p) ∧
  (∀ s', addIdentity p _name _email s = Success tt s' →
     exists_ (identities s' !!! p) = true ∧ user (identities s' !!! p) = p) ∧
  (key_consistent s p → key_consistent (transact (dispatch sender c) s) p) ∧
  (exists_ (identities s !!! p) = true →
   exists_ (identities (transact (dispatch sender c) s) !!! p) = true →
   user (identities (transact (dispatch sender c) s) !!! p) =
     user (identities s !!! p)).
Proof.
  split; [|split; [|split]].
  - intros Hs. revert p.
    apply (reachable_ind_inv key_consistent); [|apply key_consistent_step|done].
    intros p. unfold key_consistent. by rewrite lookup_genesis.
  - intros s'. rewrite addIdentity_eq.
    destruct (exists_ (identities s !!! p)); [done|].
    intros [= <-]. by read_slot.
  - apply key_consistent_step.
  - destruct (decide (sender = p)) as [->|Hne];
      [|by rewrite transact_frame].
    intros Hlive. call_cases p c s; try done; read_slot; simpl; done.
Qed.

Lemma user_is_key_witness :
  reachable s_alice_verified ∧
  user (identities s_alice_verified !!! alice) = alice ∧
  key_consistent (transact (dispatch alice (UpdateIdentity "Al" "al@example.com"))
                    s_alice_verified) alice.
Proof.
  assert (Hr : reachable s_alice_verified)
    by (apply reachable_run, reachable_genesis).
  split; [exact Hr|].
  destruct (user_is_key s_alice_verified alice alice VerifyIdentity "" "")
    as (Hreach & _).
  split; [exact (Hreach Hr eq_refl)|].
  destruct (user_is_key s_alice_verified alice alice
              (UpdateIdentity "Al" "al@example.com") "" "")
    as (_ & _ & Hstep & _).
  apply Hstep. intros _. vm_compute. reflexivity.
Defined.

(** ** Preconditions and failures *)

(** C2. For a caller [p]: [updateIdentity], [deleteIdentity],
    [verifyIdentity] and [revokeIdentity] fail exactly when [p]'s record has
    [exists = false], and then with [NotFound]; [addIdentity] fails exactly
    when the record has [exists = true], and then with [AlreadyExists]. A
    failing call has written nothing and emitted nothing at the point where
    it reverts, and the committed state is the state before the call. *)
Theorem failure_iff_precondition (s : State) (p : address)
    (_name _email reason : string) :
  (fails_with (updateIdentity p _name _email) s reason ↔
     exists_ (identities s !!! p) = false ∧ reason = NotFound) ∧
  (fails_with (deleteIdentity p) s reason ↔
     exists_ (identities s !!! p) = false ∧ reason = NotFound) ∧
  (fails_with (verifyIdentity p) s reason ↔
     exists_ (identities s !!! p) = false ∧ reason = NotFound) ∧
  (fails_with (revokeIdentity p) s reason ↔
     exists_ (identities s !!! p) = false ∧ reason = NotFound) ∧
  (fails_with (addIdentity p _name _email) s reason ↔
     exists_ (identities s !!! p) = true ∧ reason = AlreadyExists) ∧
  (∀ (c : Call) (s' : State),
     dispatch p c s = Revert reason s' →
     s' = s ∧ transact (dispatch p c) s = s).
Proof.
  assert (Hrevert : ∀ (c : Call) (s' : State),
            dispatch p c s = Revert reason s' → s' = s).
  { intros c s'. destruct c; simpl dispatch;
      rewrite ?addIdentity_eq, ?updateIdentity_eq, ?deleteIdentity_eq,
        ?verifyIdentity_eq, ?revokeIdentity_eq;
      destruct (exists_ (identities s !!! p)); congruence. }
  split; [|split; [|split; [|split; [|split]]]].
  6: { intros c s' Hrev. split; [by eapply Hrevert|].
       unfold transact. by rewrite Hrev. }
  all: unfold fails_with;
    rewrite ?addIdentity_eq, ?updateIdentity_eq, ?deleteIdentity_eq,
      ?verifyIdentity_eq, ?revokeIdentity_eq;
    destruct (exists_ (identities s !!! p));
    (split;
     [ intros [s' Hs']; first [discriminate Hs' | by injection Hs' as <- _]
     | intros [Hex ->]; first [discriminate Hex | by eexists] ]).
Qed.

Lemma failure_iff_precondition_witness :
  fails_with (deleteIdentity bob) s_alice NotFound ∧
  fails_with (addIdentity alice "A" "a@example.com") s_alice AlreadyExists ∧
  transact (dispatch bob VerifyIdentity) s_alice = s_alice.
Proof.
  destruct (failure_iff_precondition s_alice bob "" "" NotFound)
    as (_ & Hdel & _ & _ & _ & Hsame).
  destruct (failure_iff_precondition s_alice alice "A" "a@example.com"
              AlreadyExists) as (_ & _ & _ & _ & Hadd & _).
  split; [apply Hdel; split; vm_compute; reflexivity|].
  split; [apply Hadd; split; vm_compute; reflexivity|].
  apply (Hsame VerifyIdentity s_alice). vm_compute. reflexivity.
Defined.

(** ** The five operations *)

(** C3. When [p]'s record has [exists = false], [addIdentity(name, email)]
    by [p] succeeds and [p]'s record becomes exactly
    [{user: p, name, email, isVerified: false, exists: true}]; right after
    it [getIdentity(p)] succeeds and returns that record, and
    [isIdentityVerified(p)] returns [false]. *)
Theorem addIdentity_creates (s : State) (p : address) (_name _email : string)
    (Habsent : exists_ (identities s !!! p) = false) :
  ∃ s' : State,
    addIdentity p _name _email s = Success tt s' ∧
    identities s' !!! p = mkIdentity p _name _email false true ∧
    getIdentity p s' = Success (mkIdentity p _name _email false true) s' ∧
    isIdentityVerified p s' = Success false s'.
Proof.
  rewrite addIdentity_eq, Habsent. eexists. split; [reflexivity|].
  rewrite getIdentity_eq, isIdentityVerified_eq. by read_slot.
Qed.

Lemma addIdentity_creates_witness :
  ∃ s' : State,
    addIdentity alice "Alice" "alice@example.com" genesis = Success tt s' ∧
    identities s' !!! alice =
      mkIdentity alice "Alice" "alice@example.com" false true ∧
    getIdentity alice s' =
      Success (mkIdentity alice "Alice" "alice@example.com" false true) s' ∧
    isIdentityVerified alice s' = Success false s'.
Proof.
  apply (addIdentity_creates genesis alice "Alice" "alice@example.com").
  vm_compute. reflexivity.
Defined.

(** C4. When [p]'s record has [exists = true], [updateIdentity(name, email)]
    by [p] succeeds, sets the [name] and [email] members of [p]'s record and
    leaves [isVerified], [exists] and [user] as they were; an update that
    follows [verifyIdentity] therefore leaves [isVerified = true]. *)
Theorem updateIdentity_overwrites_name_email (s : State) (p : address)
    (_name _email : string)
    (Hlive : exists_ (identities s !!! p) = true) :
  (∃ s' : State,
     updateIdentity p _name _email s = Success tt s' ∧
     identities s' !!! p =
       mkIdentity (user (identities s !!! p)) _name _email
         (isVerified (identities s !!! p)) (exists_ (identities s !!! p))) ∧
  (∃ s1 s2 : State,
     verifyIdentity p s = Success tt s1 ∧
     updateIdentity p _name _email s1 = Success tt s2 ∧
     isVerified (identities s2 !!! p) = true).
Proof.
  split.
  - rewrite updateIdentity_eq, Hlive. eexists. split; [reflexivity|].
    by read_slot.
  - rewrite verifyIdentity_eq, Hlive. eexists. eexists.
    split; [reflexivity|]. rewrite updateIdentity_eq. read_slot. simpl.
    rewrite Hlive. split; [reflexivity|]. by read_slot.
Qed.

Lemma updateIdentity_overwrites_name_email_witness :
  ∃ s' : State,
    updateIdentity alice "Alice2" "a2@example.com" s_alice_verified =
      Success tt s' ∧
    identities s' !!! alice = mkIdentity alice "Alice2" "a2@example.com" true true.
Proof.
  destruct (updateIdentity_overwrites_name_email s_alice_verified alice
              "Alice2" "a2@example.com") as [(s' & Hrun & Hrec) _].
  - vm_compute. reflexivity.
  - exists s'. split; [exact Hrun|]. rewrite Hrec. vm_compute. reflexivity.
Defined.

(** C5. For distinct principals [p] and [q], a call of any of the five
    operations by [q] leaves [p]'s record as it was, in the state the call
    reaches and in the committed state: a record is created, edited and
    deleted by its owner only. *)
Theorem caller_touches_own_record_only (s : State) (p q : address) (c : Call)
    (Hpq : p ≠ q) :
  (∀ s' : State, dispatch q c s = Success tt s' →
     identities s' !!! p = identities s !!! p) ∧
  identities (transact (dispatch q c) s) !!! p = identities s !!! p.
Proof.
  assert (Hframe :
    identities (transact (dispatch q c) s) !!! p = identities s !!! p)
    by (apply transact_frame; congruence).
  split; [|exact Hframe].
  intros s' Hrun. revert Hframe. unfold transact. by rewrite Hrun.
Qed.

Lemma caller_touches_own_record_only_witness :
  identities (transact (dispatch bob DeleteIdentity) s_alice_verified) !!! alice =
    mkIdentity alice "Alice" "alice@example.com" true true ∧
  identities (transact (dispatch bob (AddIdentity "Bob" "bob@example.com"))
                s_alice_verified) !!! alice =
    mkIdentity alice "Alice" "alice@example.com" true true.
Proof.
  assert (Hne : alice ≠ bob) by (vm_compute; discriminate).
  split.
  - rewrite (proj2 (caller_touches_own_record_only s_alice_verified alice bob
                      DeleteIdentity Hne)).
    vm_compute. reflexivity.
  - rewrite (proj2 (caller_touches_own_record_only s_alice_verified alice bob
                      (AddIdentity "Bob" "bob@example.com") Hne)).
    vm_compute. reflexivity.
Defined.

(** C7. When [p]'s record has [exists = true], [deleteIdentity] by [p]
    succeeds and resets [p]'s record to the zero value. Afterwards
    [getIdentity(p)] and [isIdentityVerified(p)] fail with [NotFound], a
    second [deleteIdentity] by [p] fails with [NotFound], and an
    [addIdentity] by [p] succeeds again, with [isVerified = false]. *)
Theorem deleteIdentity_resets (s : State) (p : address) (_name _email : string)
    (Hlive : exists_ (identities s !!! p) = true) :
  ∃ s' : State,
    deleteIdentity p s = Success tt s' ∧
    identities s' !!! p = Identity_zero ∧
    getIdentity p s' = Revert NotFound s' ∧
    isIdentityVerified p s' = Revert NotFound s' ∧
    deleteIdentity p s' = Revert NotFound s' ∧
    ∃ s'' : State,
      addIdentity p _name _email s' = Success tt s'' ∧
      identities s'' !!! p = mkIdentity p _name _email false true.
Proof.
  rewrite deleteIdentity_eq, Hlive. eexists. split; [reflexivity|].
  rewrite getIdentity_eq, isIdentityVerified_eq, deleteIdentity_eq,
    addIdentity_eq.
  read_slot. simpl. repeat (split; [reflexivity|]).
  eexists. split; [reflexivity|]. by read_slot.
Qed.

Lemma deleteIdentity_resets_witness :
  ∃ s' : State,
    deleteIdentity alice s_alice_verified = Success tt s' ∧
    identities s' !!! alice = Identity_zero ∧
    getIdentity alice s' = Revert NotFound s' ∧
    isIdentityVerified alice s' = Revert NotFound s' ∧
    deleteIdentity alice s' = Revert NotFound s' ∧
    ∃ s'' : State,
      addIdentity alice "Alice" "new@example.com" s' = Success tt s'' ∧
      identities s'' !!! alice =
        mkIdentity alice "Alice" "new@example.com" false true.
Proof.
  apply (deleteIdentity_resets s_alice_verified alice "Alice" "new@example.com").
  vm_compute. reflexivity.
Defined.

(** C8. When [p]'s record has [exists = true], [verifyIdentity] followed by
    [revokeIdentity], both by [p], succeed and leave [isVerified = false]
    with [name] and [email] as before the two calls. [verifyIdentity]
    changes nothing but [isVerified], which it sets to [true];
    [revokeIdentity] changes nothing but [isVerified], which it sets to
    [false]. *)
Theorem verify_then_revoke (s : State) (p : address)
    (Hlive : exists_ (identities s !!! p) = true) :
  (∃ s1 s2 : State,
     verifyIdentity p s = Success tt s1 ∧
     revokeIdentity p s1 = Success tt s2 ∧
     identities s1 !!! p = set_isVerified true (identities s !!! p) ∧
     identities s2 !!! p = set_isVerified false (identities s !!! p) ∧
     isVerified (identities s2 !!! p) = false ∧
     name (identities s2 !!! p) = name (identities s !!! p) ∧
     email (identities s2 !!! p) = email (identities s !!! p) ∧
     ∀ q : address, q ≠ p →
       identities s1 !!! q = identities s !!! q ∧
       identities s2 !!! q = identities s !!! q) ∧
  (∃ s3 : State,
     revokeIdentity p s = Success tt s3 ∧
     identities s3 !!! p = set_isVerified false (identities s !!! p) ∧
     ∀ q : address, q ≠ p → identities s3 !!! q = identities s !!! q).
Proof.
  split.
  - rewrite verifyIdentity_eq, Hlive. eexists. eexists.
    split; [reflexivity|]. rewrite revokeIdentity_eq. read_slot.
    cbn [exists_ set_isVerified]. rewrite Hlive. split; [reflexivity|].
    read_slot. repeat (split; [reflexivity|]).
    intros q Hq. split; by read_slot.
  - rewrite revokeIdentity_eq, Hlive. eexists. split; [reflexivity|].
    read_slot. split; [reflexivity|]. intros q Hq. by read_slot.
Qed.

Lemma verify_then_revoke_witness :
  ∃ s1 s2 : State,
    verifyIdentity alice s_alice = Success tt s1 ∧
    revokeIdentity alice s1 = Success tt s2 ∧
    identities s1 !!! alice =
      mkIdentity alice "Alice" "alice@example.com" true true ∧
    identities s2 !!! alice =
      mkIdentity alice "Alice" "alice@example.com" false true.
Proof.
  destruct (verify_then_revoke s_alice alice)
    as [(s1 & s2 & Hv & Hr & H1 & H2 & _) _].
  - vm_compute. reflexivity.
  - exists s1, s2. split; [exact Hv|]. split; [exact Hr|].
    rewrite H1, H2. split; vm_compute; reflexivity.
Defined.

(** ** Events *)

(** C6. Each of the five operations, when it succeeds, performs its storage
    writes and then emits exactly two events: first its own event
    ([IdentityAdded], [IdentityUpdated], [IdentityDeleted],
    [IdentityVerified] or [IdentityRevoked], carrying the caller and, for
    the first two, the name and email) and then [IdentityActionLogged] with
    the action's name as only payload. A call that fails emits nothing. *)
Theorem success_emits_specific_then_generic (s : State) (p : address)
    (_name _email : string) :
  (exists_ (identities s !!! p) = false →
     ∃ s' : State,
       addIdentity p _name _email s = Success tt s' ∧
       emits_after_writes s s' (IdentityAdded p _name _email) "Identity Added") ∧
  (exists_ (identities s !!! p) = true →
     (∃ s' : State,
        updateIdentity p _name _email s = Success tt s' ∧
        emits_after_writes s s' (IdentityUpdated p _name _email)
          "Identity Updated") ∧
     (∃ s' : State,
        deleteIdentity p s = Success tt s' ∧
        emits_after_writes s s' (IdentityDeleted p) "Identity Deleted") ∧
     (∃ s' : State,
        verifyIdentity p s = Success tt s' ∧
        emits_after_writes s s' (IdentityVerified p) "Identity Verified") ∧
     (∃ s' : State,
        revokeIdentity p s = Success tt s' ∧
        emits_after_writes s s' (IdentityRevoked p) "Identity Revoked")) ∧
  (∀ (c : Call) (reason : string) (s' : State),
     dispatch p c s = Revert reason s' →
     journal s' = journal s ∧ events s' = events s ∧
     events (transact (dispatch p c) s) = events s).
Proof.
  assert (Hshape : ∀ (s' : State) (writes : list Effect) (ev : Event)
                     (action : string),
            writes ≠ [] → forallb is_store writes = true →
            journal s' =
              journal s ++ writes ++ [Log ev; Log (IdentityActionLogged action)] →
            emits_after_writes s s' ev action).
  { intros s' writes ev action Hne Hst Hj. split; [|by exists writes].
    rewrite (events_app s _ s' Hj), omap_app. f_equal.
    assert (Hnone : omap logged writes = []).
    { clear Hne Hj. induction writes as [|[k|e] writes IH]; [done| |done].
      simpl. apply IH, Hst. }
    by rewrite Hnone. }
  split; [|split].
  - intros Hex. rewrite addIdentity_eq, Hex. eexists. split; [reflexivity|].
    by apply (Hshape _ [SStore p]).
  - intros Hex.
    rewrite updateIdentity_eq, deleteIdentity_eq, verifyIdentity_eq,
      revokeIdentity_eq, Hex.
    repeat split; eexists; (split; [reflexivity|]).
    + by apply (Hshape _ [SStore p; SStore p]).
    + by apply (Hshape _ [SStore p]).
    + by apply (Hshape _ [SStore p]).
    + by apply (Hshape _ [SStore p]).
  - intros c reason s' Hrev.
    assert (s' = s) as ->.
    { revert Hrev. destruct c; simpl dispatch;
        rewrite ?addIdentity_eq, ?updateIdentity_eq, ?deleteIdentity_eq,
          ?verifyIdentity_eq, ?revokeIdentity_eq;
        destruct (exists_ (identities s !!! p)); congruence. }
    unfold transact. by rewrite Hrev.
Qed.

Lemma success_emits_specific_then_generic_witness :
  ∃ s' : State,
    verifyIdentity alice s_alice = Success tt s' ∧
    events s' =
      [IdentityAdded alice "Alice" "alice@example.com";
       IdentityActionLogged "Identity Added";
       IdentityVerified alice;
       IdentityActionLogged "Identity Verified"].
Proof.
  destruct (success_emits_specific_then_generic s_alice alice "" "")
    as (_ & Hlive & _).
  destruct Hlive as (_ & _ & (s' & Hrun & Hev & _) & _).
  - vm_compute. reflexivity.
  - exists s'. split; [exact Hrun|]. rewrite Hev. vm_compute. reflexivity.
Defined.

(** ** The public getter *)

(** C9. Besides the guarded [getIdentity] and [isIdentityVerified], the
    contract exposes the getter of the public mapping [identities]. For
    every principal [p] it succeeds and returns the members stored under
    [p], whatever they are; in a reachable state where [p] has no live
    record it returns the zero record (zero address, empty name and email,
    [isVerified = false], [exists = false]) where [getIdentity] and
    [isIdentityVerified] fail with [NotFound]. *)
Theorem identities_getter_never_fails (s : State) (p : address) :
  identities_getter p s =
    Success (user (identities s !!! p), name (identities s !!! p),
             email (identities s !!! p), isVerified (identities s !!! p),
             exists_ (identities s !!! p)) s ∧
  (reachable s → exists_ (identities s !!! p) = false →
     identities_getter p s = Success (0, "", "", false, false) s ∧
     getIdentity p s = Revert NotFound s ∧
     isIdentityVerified p s = Revert NotFound s).
Proof.
  split; [apply identities_getter_eq|].
  intros Hs Hex.
  rewrite identities_getter_eq, getIdentity_eq, isIdentityVerified_eq, Hex.
  by rewrite (reachable_absent_is_zero s p Hs Hex).
Qed.

Lemma identities_getter_never_fails_witness :
  identities_getter alice s_alice_deleted =
    Success (0, "", "", false, false) s_alice_deleted ∧
  getIdentity alice s_alice_deleted = Revert NotFound s_alice_deleted.
Proof.
  destruct (identities_getter_never_fails s_alice_deleted alice) as [_ Habs].
  destruct Habs as (Hget & Hguard & _).
  - apply reachable_run, reachable_genesis.
  - vm_compute. reflexivity.
  - split; [exact Hget | exact Hguard].
Defined.

(** ** The life cycle of one record, run on the model *)

Example life_cycle_after_update :
  getIdentity alice (run (take 3 life_cycle) genesis) =
    Success (mkIdentity alice "Alice2" "a2@example.com" true true)
      (run (take 3 life_cycle) genesis).
Proof. vm_compute. reflexivity. Qed.

Example life_cycle_after_revoke :
  isIdentityVerified alice (run (take 4 life_cycle) genesis) =
    Success false (run (take 4 life_cycle) genesis).
Proof. vm_compute. reflexivity. Qed.

Example life_cycle_after_delete :
  getIdentity alice (run life_cycle genesis) =
    Revert NotFound (run life_cycle genesis).
Proof. vm_compute. reflexivity. Qed.

Example life_cycle_events :
  events (run life_cycle genesis) =
    [IdentityAdded alice "Alice" "alice@example.com";
     IdentityActionLogged "Identity Added";
     IdentityVerified alice; IdentityActionLogged "Identity Verified";
     IdentityUpdated alice "Alice2" "a2@example.com";
     IdentityActionLogged "Identity Updated";
     IdentityRevoked alice; IdentityActionLogged "Identity Revoked";
     IdentityDeleted alice; IdentityActionLogged "Identity Deleted"].
Proof. vm_compute. reflexivity. Qed.

Example stranger_calls_revert :
  run [(bob, UpdateIdentity "B" "b@example.com"); (bob, VerifyIdentity);
       (bob, RevokeIdentity); (bob, DeleteIdentity)] s_alice = s_alice.
Proof. vm_compute. reflexivity. Qed.

(** * Further properties of the contract *)

(** ** Helper facts *)

Lemma live_lookup (m : gmap N Identity) (p : address) :
  exists_ (m !!! p) = true → m !! p = Some (m !!! p).
Proof.
  rewrite lookup_total_alt. destruct (m !! p) as [r|]; [done|].
  simpl. discriminate.
Qed.

Lemma events_written s p v fx :
  events (written s p v fx) = events s ++ omap logged fx.
Proof. by apply events_app. Qed.

Lemma events_erased s p fx :
  events (erased s p fx) = events s ++ omap logged fx.
Proof. by apply events_app. Qed.

(** The caller's own slot after a call, committed or reverted. *)
Lemma transact_slot s p c :
  identities (transact (dispatch p c) s) !!! p =
    slot_step p c (identities s !!! p).
Proof. unfold slot_step. call_cases p c s; by read_slot. Qed.

(** Whether and why a call reverts is decided by the caller's slot alone. *)
Lemma dispatch_fails_slot s t p c reason :
  identities s !!! p = identities t !!! p →
  fails_with (dispatch p c) s reason → fails_with (dispatch p c) t reason.
Proof.
  intros Heq [s' Hs']. revert Hs'. unfold fails_with.
  destruct c; simpl dispatch;
    rewrite ?addIdentity_eq, ?updateIdentity_eq, ?deleteIdentity_eq,
      ?verifyIdentity_eq, ?revokeIdentity_eq, <- Heq;
    destruct (exists_ (identities s !!! p)); try done;
    intros [= <- _]; by eexists.
Qed.

(** ** The read functions *)

(** X1. [getIdentity] and [isIdentityVerified] fail exactly for a principal
    whose record has [exists = false], and then only with
    "Identity does not exist"; anyone may query anyone's record. *)
Theorem guarded_views_fail_iff_absent (s : State) (_user : address)
    (reason : string) :
  (fails_with (getIdentity _user) s reason ↔
     exists_ (identities s !!! _user) = false ∧ reason = NotFound) ∧
  (fails_with (isIdentityVerified _user) s reason ↔
     exists_ (identities s !!! _user) = false ∧ reason = NotFound).
Proof.
  unfold fails_with. rewrite getIdentity_eq, isIdentityVerified_eq.
  destruct (exists_ (identities s !!! _user));
    (split;
     (split;
      [ intros [s' Hs']; first [discriminate Hs' | by injection Hs' as <- _]
      | intros [Hex ->]; first [discriminate Hex | by eexists] ])).
Qed.

Lemma guarded_views_fail_iff_absent_witness :
  fails_with (getIdentity bob) s_alice NotFound ∧
  fails_with (isIdentityVerified bob) s_alice NotFound.
Proof.
  destruct (guarded_views_fail_iff_absent s_alice bob NotFound) as [Hget Hver].
  split; [apply Hget | apply Hver]; split; vm_compute; reflexivity.
Defined.

(** X2. The three reads agree. When [getIdentity(u)] returns a record, the
    state is untouched, the record is live, it is the content of [u]'s slot,
    [isIdentityVerified(u)]
    returns its [isVerified] member and the public getter returns its
    members; in a reachable state its [user] member is [u]. *)
Theorem getIdentity_result (s s' : State) (_user : address) (r : Identity)
    (Hget : getIdentity _user s = Success r s') :
  s' = s ∧
  exists_ r = true ∧
  r = identities s !!! _user ∧
  isIdentityVerified _user s = Success (isVerified r) s ∧
  identities_getter _user s =
    Success (user r, name r, email r, isVerified r, true) s ∧
  (reachable s → user r = _user).
Proof.
  revert Hget.
  rewrite getIdentity_eq, isIdentityVerified_eq, identities_getter_eq.
  destruct (exists_ (identities s !!! _user)) eqn:Hex; [|done].
  intros [= <- <-]. repeat (split; [done|]).
  intros Hs. revert _user Hex.
  apply (reachable_ind_inv key_consistent); [|apply key_consistent_step|done].
  intros p. unfold key_consistent. by rewrite lookup_genesis.
Qed.

Lemma getIdentity_result_witness :
  isIdentityVerified alice s_alice_verified = Success true s_alice_verified ∧
  identities_getter alice s_alice_verified =
    Success (alice, "Alice", "alice@example.com", true, true) s_alice_verified.
Proof.
  assert (Hget : getIdentity alice s_alice_verified =
                   Success (mkIdentity alice "Alice" "alice@example.com" true true)
                     s_alice_verified)
    by (vm_compute; reflexivity).
  destruct (getIdentity_result _ _ _ _ Hget) as (_ & _ & _ & Hver & Hpub & _).
  split; [exact Hver | exact Hpub].
Defined.

(** ** Repeated calls *)

(** X3. [verifyIdentity] has no guard against a record that is already
    verified, nor [revokeIdentity] against one that is not: the call
    succeeds, storage stays exactly as it was, and the two events are
    emitted once more. *)
Theorem verify_revoke_repeat (s : State) (p : address)
    (Hlive : exists_ (identities s !!! p) = true) :
  (isVerified (identities s !!! p) = true →
     ∃ s' : State,
       verifyIdentity p s = Success tt s' ∧
       identities s' = identities s ∧
       events s' =
         events s ++ [IdentityVerified p;
                      IdentityActionLogged "Identity Verified"]) ∧
  (isVerified (identities s !!! p) = false →
     ∃ s' : State,
       revokeIdentity p s = Success tt s' ∧
       identities s' = identities s ∧
       events s' =
         events s ++ [IdentityRevoked p;
                      IdentityActionLogged "Identity Revoked"]).
Proof.
  pose proof (live_lookup _ _ Hlive) as Hsome.
  split; intros Hver.
  - rewrite verifyIdentity_eq, Hlive. eexists. split; [reflexivity|].
    split; [|by rewrite events_written].
    unfold written; simpl. apply insert_id. rewrite Hsome. f_equal.
    destruct (identities s !!! p); simpl in *. by subst.
  - rewrite revokeIdentity_eq, Hlive. eexists. split; [reflexivity|].
    split; [|by rewrite events_written].
    unfold written; simpl. apply insert_id. rewrite Hsome. f_equal.
    destruct (identities s !!! p); simpl in *. by subst.
Qed.

Lemma verify_revoke_repeat_witness :
  ∃ s' : State,
    verifyIdentity alice s_alice_verified = Success tt s' ∧
    identities s' = identities s_alice_verified ∧
    length (events s') = 6%nat.
Proof.
  destruct (verify_revoke_repeat s_alice_verified alice) as [Hagain _].
  - vm_compute. reflexivity.
  - destruct Hagain as (s' & Hrun & Hsame & Hev).
    + vm_compute. reflexivity.
    + exists s'. split; [exact Hrun|]. split; [exact Hsame|].
      rewrite Hev. vm_compute. reflexivity.
Defined.

(** X4. Of two successive [updateIdentity] calls by [p] the second decides
    the record: storage is the same as after the second call alone. An
    update with the values already stored succeeds and leaves storage as
    it was. *)
Theorem updateIdentity_last_wins (s : State) (p : address)
    (n1 e1 n2 e2 : string)
    (Hlive : exists_ (identities s !!! p) = true) :
  (∃ s1 s2 s2' : State,
     updateIdentity p n1 e1 s = Success tt s1 ∧
     updateIdentity p n2 e2 s1 = Success tt s2 ∧
     updateIdentity p n2 e2 s = Success tt s2' ∧
     identities s2 = identities s2') ∧
  (∃ s' : State,
     updateIdentity p (name (identities s !!! p))
       (email (identities s !!! p)) s = Success tt s' ∧
     identities s' = identities s).
Proof.
  split.
  - rewrite !updateIdentity_eq, Hlive. do 3 eexists.
    split; [reflexivity|]. rewrite updateIdentity_eq. read_slot.
    cbn [exists_ user isVerified].
    do 2 (split; [reflexivity|]).
    unfold written; simpl. apply insert_insert_eq.
  - rewrite updateIdentity_eq, Hlive. eexists. split; [reflexivity|].
    unfold written; simpl. apply insert_id.
    rewrite (live_lookup _ _ Hlive). f_equal.
    destruct (identities s !!! p); simpl in *. by subst.
Qed.

Lemma updateIdentity_last_wins_witness :
  ∃ s1 s2 : State,
    updateIdentity alice "A" "a@example.com" s_alice = Success tt s1 ∧
    updateIdentity alice "B" "b@example.com" s1 = Success tt s2 ∧
    identities s2 !!! alice = mkIdentity alice "B" "b@example.com" false true.
Proof.
  destruct (updateIdentity_last_wins s_alice alice "A" "a@example.com"
              "B" "b@example.com") as [(s1 & s2 & s2' & H1 & H2 & H2' & Heq) _].
  - vm_compute. reflexivity.
  - exists s1, s2. split; [exact H1|]. split; [exact H2|].
    rewrite Heq. vm_compute in H2'. injection H2' as <-.
    vm_compute. reflexivity.
Defined.

(** ** Sequences of calls *)

(** X5. Creating a record and deleting it again leaves no trace in storage:
    in a reachable state where [p] has no live record, [addIdentity] then
    [deleteIdentity] by [p] both succeed and every slot of the mapping reads
    as before; only the event log has grown, by the four events of the two
    calls. *)
Theorem add_then_delete_restores_storage (s : State) (p : address)
    (_name _email : string)
    (Hs : reachable s) (Habsent : exists_ (identities s !!! p) = false) :
  ∃ s1 s2 : State,
    addIdentity p _name _email s = Success tt s1 ∧
    deleteIdentity p s1 = Success tt s2 ∧
    (∀ q : address, identities s2 !!! q = identities s !!! q) ∧
    events s2 =
      events s ++ [IdentityAdded p _name _email;
                   IdentityActionLogged "Identity Added";
                   IdentityDeleted p;
                   IdentityActionLogged "Identity Deleted"].
Proof.
  rewrite addIdentity_eq, Habsent. do 2 eexists. split; [reflexivity|].
  rewrite deleteIdentity_eq. read_slot. cbn [exists_].
  split; [reflexivity|]. split.
  - intros q. destruct (decide (p = q)) as [<-|Hne]; read_slot; [|done].
    symmetry. by apply reachable_absent_is_zero.
  - rewrite events_erased, events_written. by rewrite <- app_assoc.
Qed.

Lemma add_then_delete_restores_storage_witness :
  ∃ s1 s2 : State,
    addIdentity bob "Bob" "bob@example.com" s_alice = Success tt s1 ∧
    deleteIdentity bob s1 = Success tt s2 ∧
    identities s2 !!! alice = identities s_alice !!! alice ∧
    identities s2 !!! bob = Identity_zero.
Proof.
  destruct (add_then_delete_restores_storage s_alice bob "Bob" "bob@example.com")
    as (s1 & s2 & H1 & H2 & Hsame & _).
  - apply reachable_run, reachable_genesis.
  - vm_compute. reflexivity.
  - exists s1, s2. split; [exact H1|]. split; [exact H2|].
    split; [apply Hsame|]. rewrite Hsame. vm_compute. reflexivity.
Defined.

Lemma events_transact s p c :
  events (transact (dispatch p c) s) = events s ∨
  ∃ e a, action_of e = Some a ∧
    events (transact (dispatch p c) s) =
      events s ++ [e; IdentityActionLogged a].
Proof.
  call_cases p c s; auto; right;
    rewrite ?events_written, ?events_erased; simpl;
    do 2 eexists; (split; [|reflexivity]); reflexivity.
Qed.

Lemma journal_transact s p c :
  journal s `prefix_of` journal (transact (dispatch p c) s).
Proof. call_cases p c s; try done; by eexists. Qed.

(** X6. The event log is append-only: whatever calls follow, by whomever,
    the log and the journal of effects so far remain a prefix of the later
    ones, and one call adds either no event or exactly two. *)
Theorem event_log_append_only (calls : list (address * Call)) (s : State)
    (p : address) (c : Call) :
  events s `prefix_of` events (run calls s) ∧
  journal s `prefix_of` journal (run calls s) ∧
  (length (events (transact (dispatch p c) s)) = length (events s) ∨
   length (events (transact (dispatch p c) s)) = (length (events s) + 2)%nat).
Proof.
  split; [|split].
  - revert s. induction calls as [|[q d] calls IH]; intros s; [done|].
    simpl. etrans; [|apply IH].
    destruct (events_transact s q d) as [->|(e & a & _ & ->)]; [done|].
    by apply prefix_app_r.
  - revert s. induction calls as [|[q d] calls IH]; intros s; [done|].
    simpl. etrans; [|apply IH]. apply journal_transact.
  - destruct (events_transact s p c) as [->|(e & a & _ & ->)]; [by left|].
    right. by rewrite length_app.
Qed.

Lemma well_paired_snoc (log : list Event) (e : Event) (a : string) :
  well_paired log = true → action_of e = Some a →
  well_paired (log ++ [e; IdentityActionLogged a]) = true.
Proof.
  intros Hlog Hact.
  assert (Hboth : ∀ l, (well_paired l = true →
                        well_paired (l ++ [e; IdentityActionLogged a]) = true) ∧
                       ∀ x, well_paired (x :: l) = true →
                        well_paired ((x :: l) ++ [e; IdentityActionLogged a]) = true).
  { induction l as [|y l [IH1 IH2]].
    - split; [|done]. intros _. simpl. by rewrite bool_decide_eq_true_2.
    - split; [apply IH2|]. intros x. simpl.
      destruct y; try done.
      intros [Hx Hl]%andb_prop. rewrite Hx. simpl. by apply IH1. }
  by apply Hboth.
Qed.

(** X7. In every reachable state the event log is a sequence of pairs: a
    specific event immediately followed by [IdentityActionLogged] carrying
    the action string of that very event. In particular the log has even
    length and no [IdentityActionLogged] stands alone. *)
Theorem event_log_well_paired (s : State) (Hs : reachable s) :
  well_paired (events s) = true.
Proof.
  induction Hs as [|s p c _ IH]; [done|].
  destruct (events_transact s p c) as [->|(e & a & Hact & ->)]; [done|].
  by apply well_paired_snoc.
Qed.

Lemma event_log_well_paired_witness :
  well_paired (events (run life_cycle genesis)) = true.
Proof.
  apply (event_log_well_paired (run life_cycle genesis)).
  apply reachable_run, reachable_genesis.
Defined.

(** X8. A sequence of calls none of which is sent by [p] leaves [p]'s
    record as it was. *)
Theorem run_frame (calls : list (address * Call)) (s : State) (p : address)
    (Hothers : Forall (λ sc, sc.1 ≠ p) calls) :
  identities (run calls s) !!! p = identities s !!! p.
Proof.
  revert s. induction Hothers as [|[q c] calls Hq _ IH]; intros s; [done|].
  simpl. rewrite IH. by apply transact_frame.
Qed.

Lemma run_frame_witness :
  identities (run [(bob, AddIdentity "Bob" "bob@example.com");
                   (bob, VerifyIdentity); (bob, DeleteIdentity)]
                s_alice) !!! alice =
    mkIdentity alice "Alice" "alice@example.com" false true.
Proof.
  rewrite (run_frame _ s_alice alice).
  - vm_compute. reflexivity.
  - repeat constructor; vm_compute; discriminate.
Defined.

(** X9. Calls by different principals are independent: whether the call of
    [p] reverts, and with what reason, does not depend on a call of [q]
    before it, and the two calls leave the same record under every key in
    either order. *)
Theorem calls_of_distinct_senders_commute (s : State) (p q : address)
    (c d : Call) (Hpq : p ≠ q) :
  (∀ reason : string,
     fails_with (dispatch p c) (transact (dispatch q d) s) reason ↔
     fails_with (dispatch p c) s reason) ∧
  (∀ k : address,
     identities (transact (dispatch q d) (transact (dispatch p c) s)) !!! k =
     identities (transact (dispatch p c) (transact (dispatch q d) s)) !!! k).
Proof.
  assert (Hqp : q ≠ p) by congruence.
  split.
  - intros reason. split; apply dispatch_fails_slot;
      by rewrite transact_frame.
  - intros k. destruct (decide (k = p)) as [->|Hkp].
    + rewrite transact_frame by done.
      rewrite !transact_slot. by rewrite transact_frame.
    + rewrite (transact_frame (transact (dispatch q d) s) k p) by done.
      destruct (decide (k = q)) as [->|Hkq].
      * rewrite !transact_slot. by rewrite transact_frame.
      * by rewrite !transact_frame.
Qed.

Lemma calls_of_distinct_senders_commute_witness :
  identities (transact (dispatch bob (AddIdentity "Bob" "bob@example.com"))
                (transact (dispatch alice VerifyIdentity) s_alice)) !!! alice =
  identities (transact (dispatch alice VerifyIdentity)
                (transact (dispatch bob (AddIdentity "Bob" "bob@example.com"))
                   s_alice)) !!! alice.
Proof.
  apply (calls_of_distinct_senders_commute s_alice alice bob VerifyIdentity
           (AddIdentity "Bob" "bob@example.com")).
  vm_compute. discriminate.
Defined.

(** ** Storage and the event log *)

Ltac in_log := rewrite ?elem_of_app, ?elem_of_cons; auto 6.

Lemma announced_step s sender c p :
  announced (events s) p (identities s !!! p) →
  announced (events (transact (dispatch sender c) s)) p
    (identities (transact (dispatch sender c) s) !!! p).
Proof.
  intros Hinv. destruct (decide (sender = p)) as [->|Hne].
  - revert Hinv. unfold announced.
    call_cases p c s; read_slot; rewrite ?events_written, ?events_erased;
      simpl; intros Hinv Hlive;
      try (by apply Hinv); try discriminate Hlive; try congruence.
    + split; [exists _name, _email; in_log|].
      split; [left; in_log | discriminate].
    + destruct (Hinv eq_refl) as ((n & e & Hadd) & _ & Hver).
      split; [exists n, e; in_log|].
      split; [right; in_log|].
      intros Hv. specialize (Hver Hv). in_log.
    + destruct (Hinv eq_refl) as ((n & e & Hadd) & Hcur & _).
      split; [exists n, e; in_log|].
      split; [destruct Hcur; [left|right]; in_log|].
      intros _. in_log.
    + destruct (Hinv eq_refl) as ((n & e & Hadd) & Hcur & _).
      split; [exists n, e; in_log|].
      split; [destruct Hcur; [left|right]; in_log | discriminate].
  - rewrite transact_frame by done. unfold announced in *.
    intros Hlive. destruct (Hinv Hlive) as ((n & e & Hadd) & Hcur & Hver).
    destruct (events_transact s sender c) as [->|(x & a & _ & ->)]; [by auto|].
    split; [exists n, e; in_log|].
    split; [destruct Hcur; [left|right]; in_log|].
    intros Hv. specialize (Hver Hv). in_log.
Qed.

(** X10. The log accounts for storage. In a reachable state, for every
    principal [p] with a live record: the log holds an [IdentityAdded] for
    [p]; the name and email now stored are the payload of an
    [IdentityAdded] or [IdentityUpdated] for [p] in the log; and if the
    record is verified the log holds an [IdentityVerified] for [p]. *)
Theorem live_record_is_announced (s : State) (p : address)
    (Hs : reachable s) (Hlive : exists_ (identities s !!! p) = true) :
  (∃ n e : string, IdentityAdded p n e ∈ events s) ∧
  (IdentityAdded p (name (identities s !!! p)) (email (identities s !!! p))
     ∈ events s ∨
   IdentityUpdated p (name (identities s !!! p)) (email (identities s !!! p))
     ∈ events s) ∧
  (isVerified (identities s !!! p) = true → IdentityVerified p ∈ events s).
Proof.
  revert p Hlive.
  apply (reachable_ind_inv (λ s p, announced (events s) p (identities s !!! p)));
    [|apply announced_step|done].
  intros p. unfold announced. by rewrite lookup_genesis.
Qed.

Lemma live_record_is_announced_witness :
  IdentityVerified alice ∈ events s_alice_verified.
Proof.
  destruct (live_record_is_announced s_alice_verified alice) as (_ & _ & Hver).
  - apply reachable_run, reachable_genesis.
  - vm_compute. reflexivity.
  - apply Hver. vm_compute. reflexivity.
Defined.

(** X11. Storage is a function of the event log: an observer that starts
    from the empty mapping and applies the events in order ([replay])
    holds, in every reachable state, exactly the contract's mapping. *)
Theorem storage_is_replay_of_events (s : State) (Hs : reachable s) :
  identities s = replay (events s).
Proof.
  induction Hs as [|s p c _ IH]; [done|].
  unfold transact. destruct c; simpl dispatch;
    rewrite ?addIdentity_eq, ?updateIdentity_eq, ?deleteIdentity_eq,
      ?verifyIdentity_eq, ?revokeIdentity_eq;
    destruct (exists_ (identities s !!! p)) eqn:Hex; try done;
    rewrite ?events_written, ?events_erased;
    unfold replay; rewrite foldl_app; fold (replay (events s));
    rewrite <- IH; simpl; try done.
  unfold set_email, set_name; simpl. by rewrite Hex.
Qed.

Lemma storage_is_replay_of_events_witness :
  identities (run life_cycle genesis) = replay (events (run life_cycle genesis)).
Proof.
  apply (storage_is_replay_of_events (run life_cycle genesis)).
  apply reachable_run, reachable_genesis.
Defined.

(** ** The page component *)



(** ** The contract's test suite, run on the model *)

Example test_suite_expectations :
  getIdentity alice (run (take 1 test_suite) genesis) =
    Success (mkIdentity alice "Alice" "alice@example.com" false true)
      (run (take 1 test_suite) genesis) ∧
  identities (run (take 2 test_suite) genesis) !!! alice =
    mkIdentity alice "Alice Updated" "aliceupdated@example.com" false true ∧
  isVerified (identities (run (take 3 test_suite) genesis) !!! alice) = true ∧
  isVerified (identities (run (take 4 test_suite) genesis) !!! alice) = false ∧
  fails_with (addIdentity alice "Alice" "alice@example.com")
    (run (take 4 test_suite) genesis) "Identity already exists" ∧
  fails_with (updateIdentity bob "Alice" "alice@example.com")
    (run (take 5 test_suite) genesis) "Identity does not exist" ∧
  fails_with (deleteIdentity bob)
    (run (take 6 test_suite) genesis) "Identity does not exist" ∧
  fails_with (verifyIdentity bob)
    (run (take 7 test_suite) genesis) "Identity does not exist" ∧
  fails_with (revokeIdentity bob)
    (run (take 8 test_suite) genesis) "Identity does not exist" ∧
  fails_with (getIdentity alice)
    (run test_suite genesis) "Identity does not exist".
Proof. repeat split; try (eexists; vm_compute; reflexivity); vm_compute; reflexivity. Qed.
